(** * Verification of the routing policy of [NginxProxyStack]
    (src/lib/nginx-proxy-stack.ts).

    The stack declares an HTTPS listener on an Application Load Balancer
    and an EC2 instance whose boot script writes an nginx site file.  The
    routing policy therefore lives in text: a JavaScript template literal
    holding a shell command [sudo bash -c '... <<EOF ... EOF'] whose heredoc
    becomes /etc/nginx/sites-available/default.  This file embeds

    - the text pipeline: template-literal cooking, the single-quoted
      [bash -c] argument, the unquoted heredoc expansion, nginx tokenising
      of a directive line and nginx's evaluation of a directive value;
    - the location table of the generated server block and nginx's
      location search (exact locations first, then the longest prefix),
      the rewrite phase and proxy_pass / proxy_redirect;
    - the listener: default action a fixed 403 "Forbidden", one rule that
      forwards to the instance when the Host header is www.bim.com.sg. *)

From Stdlib Require Import String Ascii List Bool Arith Lia ZArith Permutation.
Import ListNotations.
Open Scope string_scope.

(* ------------------------------------------------------------------ *)
(** ** Characters and string helpers *)

Module Text.

Definition bslash : ascii := "\"%char.
Definition dollar : ascii := "$"%char.
Definition backtick : ascii := "`"%char.
Definition nl : ascii := "010"%char.
Definition tab : ascii := "009"%char.
Definition space : ascii := " "%char.
Definition semi : ascii := ";"%char.

Definition str1 (c : ascii) : string := String c EmptyString.

Definition in_range (lo hi : nat) (c : ascii) : bool :=
  Nat.leb lo (nat_of_ascii c) && Nat.leb (nat_of_ascii c) hi.

Definition is_alpha (c : ascii) : bool := in_range 65 90 c || in_range 97 122 c.
Definition is_digit (c : ascii) : bool := in_range 48 57 c.
Definition is_underscore (c : ascii) : bool := Ascii.eqb c "_"%char.

(** ASCII lower-casing, as used for case-insensitive host names. *)
Definition lower (c : ascii) : ascii :=
  if in_range 65 90 c then ascii_of_nat (nat_of_ascii c + 32) else c.

Fixpoint lowercase (s : string) : string :=
  match s with
  | EmptyString => EmptyString
  | String c r => String (lower c) (lowercase r)
  end.

(** [starts_with pre s]: [pre] is a prefix of [s]. *)
Fixpoint starts_with (pre s : string) : bool :=
  match pre, s with
  | EmptyString, _ => true
  | String a pre', String b s' => Ascii.eqb a b && starts_with pre' s'
  | String _ _, EmptyString => false
  end.

Fixpoint drop (n : nat) (s : string) : string :=
  match n, s with
  | O, _ => s
  | S n', String _ r => drop n' r
  | S _, EmptyString => EmptyString
  end.

Fixpoint has_char (c : ascii) (s : string) : bool :=
  match s with
  | EmptyString => false
  | String d r => Ascii.eqb c d || has_char c r
  end.

End Text.
Import Text.

(* ------------------------------------------------------------------ *)
(** ** Stage 1: the JavaScript template literal

    The nginx text is part of a template literal in [userData.addCommands].
    Cooking a template replaces each escape sequence [\c] by what it
    denotes: [\n], [\t], [\r], [\b], [\f] and [\v] by the control
    characters, [\0] by NUL, a backslash before a line end by nothing (a
    line continuation), and [\\], [\$], [\`] and any other non-escape
    character by the character itself.  The literal holds no [${], no
    [\x] or [\u] escape and no digit escape other than [\0]; those are
    not modelled. *)

Definition js_escape (d : ascii) : string :=
  if Ascii.eqb d "n"%char then str1 nl
  else if Ascii.eqb d "t"%char then str1 tab
  else if Ascii.eqb d "r"%char then str1 "013"%char
  else if Ascii.eqb d "b"%char then str1 "008"%char
  else if Ascii.eqb d "f"%char then str1 "012"%char
  else if Ascii.eqb d "v"%char then str1 "011"%char
  else if Ascii.eqb d "0"%char then str1 "000"%char
  else if Ascii.eqb d nl then EmptyString
  else str1 d.

Fixpoint js_cook (s : string) : string :=
  match s with
  | EmptyString => EmptyString
  | String c rest =>
      if Ascii.eqb c bslash then
        match rest with
        | EmptyString => str1 c
        | String d rest' => js_escape d ++ js_cook rest'
        end
      else String c (js_cook rest)
  end.

(* ------------------------------------------------------------------ *)
(** ** Stage 2: [sudo bash -c '...']

    The cooked text is a single-quoted shell word: it reaches the inner
    bash unchanged (it contains no single quote). *)

Definition single_quoted (s : string) : string := s.

(* ------------------------------------------------------------------ *)
(** ** Stage 3: the heredoc [<<EOF]

    The delimiter is unquoted, so bash expands the body: [\$], [\`] and
    [\\] lose their backslash, a backslash-newline is removed, any other
    backslash stays; [$name] (a letter or [_] followed by letters, digits
    and [_]) is replaced by the value of the shell variable, [$digit] and
    the special parameters [$#], [$?], [$$], [$!], [$-], [$@], [$*] by
    theirs (all read from the environment [env]), and a [$] followed by
    anything else stays.  (The body holds no [${], no [$(] and no unescaped
    backquote; these are not modelled.)  The expansion is a transducer over
    the characters. *)

Inductive hmode := HPlain | HBackslash | HDollar | HName (n : string).

(** The one-character special parameters other than the digits. *)
Definition special_param (c : ascii) : bool :=
  has_char c "#?$!-@*".

Section Heredoc.
Variable env : string -> string.

Definition hstep_plain (c : ascii) : string * hmode :=
  if Ascii.eqb c bslash then (EmptyString, HBackslash)
  else if Ascii.eqb c dollar then (EmptyString, HDollar)
  else (str1 c, HPlain).

Definition hstep (m : hmode) (c : ascii) : string * hmode :=
  match m with
  | HPlain => hstep_plain c
  | HBackslash =>
      if Ascii.eqb c dollar || Ascii.eqb c backtick || Ascii.eqb c bslash
      then (str1 c, HPlain)
      else if Ascii.eqb c nl then (EmptyString, HPlain)
      else (String bslash (str1 c), HPlain)
  | HDollar =>
      if is_alpha c || is_underscore c then (EmptyString, HName (str1 c))
      else if is_digit c || special_param c then (env (str1 c), HPlain)
      else let (o, m') := hstep_plain c in (String dollar o, m')
  | HName n =>
      if is_alpha c || is_underscore c || is_digit c
      then (EmptyString, HName (n ++ str1 c))
      else let (o, m') := hstep_plain c in (env n ++ o, m')
  end.

Definition hfinish (m : hmode) : string :=
  match m with
  | HPlain => EmptyString
  | HBackslash => str1 bslash
  | HDollar => str1 dollar
  | HName n => env n
  end.

Fixpoint hrun (m : hmode) (s : string) : string :=
  match s with
  | EmptyString => hfinish m
  | String c r => let (o, m') := hstep m c in o ++ hrun m' r
  end.

Definition heredoc_expand (s : string) : string := hrun HPlain s.

End Heredoc.

(** The values the boot shell gives the names the template expands.  The
    only names it expands are [remote_addr], [proxy_add_x_forwarded_for]
    and [scheme] (written with a bare [$] in [location /]); neither the
    user-data script, nor cloud-init, nor [sudo] sets them, so each is
    empty.  The shell does set other names ([BASH], [PPID], [PWD], [PATH],
    [HOME], the special parameters), with values the repository does not
    fix; no line of the template mentions them.  [boot_env] gives every
    name the empty value, which is exact for the three names above;
    properties that concern other names are stated below for an arbitrary
    environment, through [config_line_env]. *)
Definition boot_env (_ : string) : string := EmptyString.

(** A line of the template as it lands in the nginx site file, for a
    given environment of the inner bash ... *)
Definition config_line_env (env : string -> string) (ts_line : string) : string :=
  heredoc_expand env (single_quoted (js_cook ts_line)).

(** ... and for the boot shell's. *)
Definition config_line (ts_line : string) : string := config_line_env boot_env ts_line.

(* ------------------------------------------------------------------ *)
(** ** Stage 4: nginx directives

    nginx splits a directive into words at blanks and ends it at [;].
    [proxy_set_header] takes exactly two arguments, a field name and a
    value; any other count is a configuration error. *)

Definition is_sep (c : ascii) : bool :=
  Ascii.eqb c space || Ascii.eqb c tab || Ascii.eqb c nl || Ascii.eqb c semi.

Definition flush (cur : string) (l : list string) : list string :=
  if String.eqb cur EmptyString then l else cur :: l.

Fixpoint tokens_go (cur : string) (s : string) : list string :=
  match s with
  | EmptyString => flush cur []
  | String c r =>
      if is_sep c then flush cur (tokens_go EmptyString r)
      else tokens_go (cur ++ str1 c) r
  end.

Definition nginx_tokens (line : string) : list string := tokens_go EmptyString line.

Definition parse_set_header (line : string) : option (string * string) :=
  match nginx_tokens line with
  | [d; name; value] =>
      if String.eqb d "proxy_set_header" then Some (name, value) else None
  | _ => None
  end.

(** nginx evaluates a directive value per request, replacing each [$name]
    by the value of the nginx variable. *)
Inductive vmode := VPlain | VName (n : string).

Section NginxValue.
Variable lookup : string -> string.

Definition vstep (m : vmode) (c : ascii) : string * vmode :=
  match m with
  | VPlain => if Ascii.eqb c dollar then (EmptyString, VName EmptyString) else (str1 c, VPlain)
  | VName n =>
      if is_alpha c || is_underscore c || is_digit c then (EmptyString, VName (n ++ str1 c))
      else if Ascii.eqb c dollar then (lookup n, VName EmptyString)
      else (lookup n ++ str1 c, VPlain)
  end.

Definition vfinish (m : vmode) : string :=
  match m with VPlain => EmptyString | VName n => lookup n end.

Fixpoint vrun (m : vmode) (s : string) : string :=
  match s with
  | EmptyString => vfinish m
  | String c r => let (o, m') := vstep m c in o ++ vrun m' r
  end.

Definition nginx_interp (s : string) : string := vrun VPlain s.

End NginxValue.

(** The request as nginx receives it. *)
Record proxy_request := {
  pr_uri : string;
  pr_host : string;
  pr_remote_addr : string;
  pr_scheme : string;
  pr_xff : option string   (* incoming X-Forwarded-For, if any *)
}.

(** The nginx variables the site file uses. *)
Definition nginx_var (r : proxy_request) (name : string) : string :=
  if String.eqb name "remote_addr" then pr_remote_addr r
  else if String.eqb name "scheme" then pr_scheme r
  else if String.eqb name "proxy_add_x_forwarded_for" then
    match pr_xff r with
    | None => pr_remote_addr r
    | Some x => x ++ ", " ++ pr_remote_addr r
    end
  else if String.eqb name "host" then pr_host r
  else EmptyString.

(* ------------------------------------------------------------------ *)
(** ** The location table of the generated server block *)

Inductive pattern := Exact (s : string) | Prefix (s : string).

Inductive rewrite_flag := RwLast | RwBreak.

Record rewrite_rule := {
  rw_apply : string -> option string;
  rw_flag : rewrite_flag
}.

(** [proxy_pass scheme://host[uri]] or [root dir]. *)
Inductive content :=
| ProxyPass (upstream_scheme upstream_host : string) (uri_part : option string)
| StaticRoot (dir : string).

Record location := {
  loc_pattern : pattern;
  loc_rewrite : option rewrite_rule;
  loc_content : content;
  loc_headers : list string;                 (* proxy_set_header lines, as in the .ts file *)
  loc_redirect : option (string * string)    (* proxy_redirect from to *)
}.

Fixpoint span_no_nl (s : string) : string * string :=
  match s with
  | EmptyString => (EmptyString, EmptyString)
  | String c r =>
      if Ascii.eqb c nl then (EmptyString, s)
      else let (a, b) := span_no_nl r in (String c a, b)
  end.

Definition at_eol (t : string) : bool := String.eqb t EmptyString || String.eqb t (str1 nl).

(** The PCRE ^/jobs( /.* )?$ (blanks added inside the group): on a match, the value of [$1].  [.] does not
    match a newline, and [$] matches at the end or before a final newline. *)
Definition jobs_rx (uri : string) : option string :=
  if starts_with "/jobs" uri then
    let r := drop 5 uri in
    match r with
    | String c _ =>
        if Ascii.eqb c "/"%char then
          let (g, t) := span_no_nl r in if at_eol t then Some g else None
        else if at_eol r then Some EmptyString else None
    | EmptyString => Some EmptyString
    end
  else None.

(** rewrite ^/jobs( /.* )?$ /career$1 break; *)
Definition jobs_rewrite : rewrite_rule := {|
  rw_apply := fun uri => option_map (fun g => "/career" ++ g) (jobs_rx uri);
  rw_flag := RwBreak
|}.

(** [location / { ... }]: the header lines are written with a bare [$]. *)
Definition loc_root : location := {|
  loc_pattern := Prefix "/";
  loc_rewrite := None;
  loc_content := ProxyPass "https" "www.bim.com.sg" None;
  loc_headers := [
    "        proxy_set_header Host www.bim.com.sg;";
    "        proxy_set_header X-Real-IP $remote_addr;";
    "        proxy_set_header X-Forwarded-For $proxy_add_x_forwarded_for;";
    "        proxy_set_header X-Forwarded-Proto $scheme;" ];
  (* no proxy_redirect: nginx's default maps the proxy_pass URL to the location *)
  loc_redirect := Some ("https://www.bim.com.sg/", "/")
|}.

(** [location /_next/ { ... }]: proxy_pass with a URI part. *)
Definition loc_next : location := {|
  loc_pattern := Prefix "/_next/";
  loc_rewrite := None;
  loc_content := ProxyPass "https" "jobs.bimeco.io" (Some "/_next/");
  loc_headers := [
    "        proxy_set_header Host jobs.bimeco.io;";
    "        proxy_set_header X-Real-IP \\$remote_addr;";
    "        proxy_set_header X-Forwarded-For \\$proxy_add_x_forwarded_for;";
    "        proxy_set_header X-Forwarded-Proto \\$scheme;" ];
  loc_redirect := Some ("https://jobs.bimeco.io/_next/", "/_next/")
|}.

(** [location /jobs { ... }] *)
Definition loc_jobs : location := {|
  loc_pattern := Prefix "/jobs";
  loc_rewrite := Some jobs_rewrite;
  loc_content := ProxyPass "https" "jobs.bimeco.io" None;
  loc_headers := [
    "        proxy_set_header Host jobs.bimeco.io;";
    "        proxy_set_header X-Real-IP \\$remote_addr;";
    "        proxy_set_header X-Forwarded-For \\$proxy_add_x_forwarded_for;";
    "        proxy_set_header X-Forwarded-Proto \\$scheme;" ];
  loc_redirect := Some ("https://jobs.bimeco.io/career/", "/jobs/")
|}.

(** [location = /50x.html { root /usr/share/nginx/html; }] *)
Definition loc_50x : location := {|
  loc_pattern := Exact "/50x.html";
  loc_rewrite := None;
  loc_content := StaticRoot "/usr/share/nginx/html";
  loc_headers := [];
  loc_redirect := None
|}.

(** The locations in the order of the site file. *)
Definition server_locations : list location := [loc_root; loc_next; loc_jobs; loc_50x].

(* ------------------------------------------------------------------ *)
(** ** nginx location search

    An exact location equal to the URI wins; otherwise the prefix location
    with the longest matching prefix is used (the site file has no regex
    locations).  The order of the blocks does not matter. *)

Definition pat_len (l : location) : nat :=
  match loc_pattern l with Exact s | Prefix s => String.length s end.

Definition prefix_hit (l : location) (uri : string) : bool :=
  match loc_pattern l with Prefix s => starts_with s uri | Exact _ => false end.

Definition exact_hit (l : location) (uri : string) : bool :=
  match loc_pattern l with Exact s => String.eqb s uri | Prefix _ => false end.

Fixpoint find_exact (locs : list location) (uri : string) : option location :=
  match locs with
  | [] => None
  | l :: ls => if exact_hit l uri then Some l else find_exact ls uri
  end.

Definition better (uri : string) (best : option location) (l : location) : option location :=
  if prefix_hit l uri then
    match best with
    | None => Some l
    | Some b => if Nat.ltb (pat_len b) (pat_len l) then Some l else best
    end
  else best.

Fixpoint longest_prefix (uri : string) (best : option location) (locs : list location)
  : option location :=
  match locs with
  | [] => best
  | l :: ls => longest_prefix uri (better uri best l) ls
  end.

Definition find_location (locs : list location) (uri : string) : option location :=
  match find_exact locs uri with
  | Some l => Some l
  | None => longest_prefix uri None locs
  end.


(* ------------------------------------------------------------------ *)
(** ** nginx's reading of the request target

    Before it searches the locations, nginx parses the request target
    (ngx_http_parse_request_line, then ngx_http_parse_complex_uri).  The
    target must begin with [/].  The path ends at the first [?] (the query
    follows, up to a [#]) or at a [#].  [%XX] escapes are decoded, runs of
    [/] are merged, [.] segments are dropped, and a [..] segment removes the
    segment before it; a [..] above the root is refused with 400, as is a
    malformed escape.  A decoded character is read again in the state the
    escape began in, except that a decoded [%] or [#] (an escape with a
    decimal second digit) and a decoded [?] (an escape with a hex-letter
    second digit) are kept as data; a decoded NUL is refused.  The target
    passes unchanged when it holds none of [%], [#], [//], [/.] (nginx then
    skips the complex parser, with the same result).  The request line
    admits no blank and no line end in the target; the model refuses every
    byte below 0x21 and 0x7F there, as nginx does since 1.21.1.  A [.] or
    [..] segment directly followed by [?] or [#] is handled as in the
    current sources; no statement below concerns one.

    The output is kept reversed, so that [..] can cut it back. *)

Inductive ustate := UUsual | USlash | UDot | UDotDot.

Inductive ustep :=
| UNext (st : ustate) (out : list ascii)   (* go on in state st *)
| UArgs (out : list ascii)                 (* the path ends at ?, the query follows *)
| UHash (out : list ascii)                 (* the path ends at # *)
| UBad.                                    (* 400 *)

(** After "/..": [u -= 4] puts the cursor on the last character of the
    previous segment; nginx then moves back to the [/] before it, and
    refuses the target when there is none. *)
Fixpoint back_to_slash (out : list ascii) : option (list ascii) :=
  match out with
  | [] => None
  | c :: r => if Ascii.eqb c "/"%char then Some out else back_to_slash r
  end.

Definition dot_dot_back (out : list ascii) : option (list ascii) :=
  back_to_slash (skipn 3 out).

(** One character of the path (other than [%]) in the states sw_usual,
    sw_slash, sw_dot and sw_dot_dot. *)
Definition ustep_char (st : ustate) (c : ascii) (out : list ascii) : ustep :=
  match st with
  | UUsual =>
      if Ascii.eqb c "/"%char then UNext USlash (c :: out)
      else if Ascii.eqb c "?"%char then UArgs out
      else if Ascii.eqb c "#"%char then UHash out
      else UNext UUsual (c :: out)
  | USlash =>
      if Ascii.eqb c "/"%char then UNext USlash out
      else if Ascii.eqb c "."%char then UNext UDot (c :: out)
      else if Ascii.eqb c "?"%char then UArgs out
      else if Ascii.eqb c "#"%char then UHash out
      else UNext UUsual (c :: out)
  | UDot =>
      if Ascii.eqb c "/"%char then UNext USlash (tl out)
      else if Ascii.eqb c "."%char then UNext UDotDot (c :: out)
      else if Ascii.eqb c "?"%char then UArgs (tl out)
      else if Ascii.eqb c "#"%char then UHash (tl out)
      else UNext UUsual (c :: out)
  | UDotDot =>
      if Ascii.eqb c "/"%char || Ascii.eqb c "?"%char || Ascii.eqb c "#"%char then
        match dot_dot_back out with
        | None => UBad
        | Some out' =>
            if Ascii.eqb c "/"%char then UNext USlash out'
            else if Ascii.eqb c "?"%char then UArgs out'
            else UHash out'
        end
      else UNext UUsual (c :: out)
  end.

(** The parser's state: a path state, or inside a [%XX] escape (with the
    path state it began in, and the first digit's value). *)
Inductive pstate := PIn (st : ustate) | PPct (st : ustate) | PPct2 (st : ustate) (hi : nat).


(** The value of a hex digit ([ch | 0x20] between [a] and [f] for the
    letters). *)
Definition hex_val (c : ascii) : option nat :=
  if is_digit c then Some (nat_of_ascii c - 48)
  else if in_range 97 102 (lower c) then Some (nat_of_ascii (lower c) - 87)
  else None.

(** The query: the raw text after [?], up to a [#]. *)
Fixpoint args_part (s : string) : string :=
  match s with
  | EmptyString => EmptyString
  | String c r => if Ascii.eqb c "#"%char then EmptyString else String c (args_part r)
  end.

(** What nginx keeps of the target: the normalized path ([r->uri]), the
    query ([r->args], when there is a [?]) and whether an escape was
    decoded ([r->quoted_uri]). *)
Record parsed_target := {
  pt_path : string;
  pt_args : option string;
  pt_quoted : bool
}.

Definition path_of (out : list ascii) : string := string_of_list_ascii (rev out).

Definition after_step (u : ustep) (q : bool) (rest : string)
  (k : ustate -> list ascii -> option parsed_target) : option parsed_target :=
  match u with
  | UNext st out => k st out
  | UArgs out => Some {| pt_path := path_of out; pt_args := Some (args_part rest); pt_quoted := q |}
  | UHash out => Some {| pt_path := path_of out; pt_args := None; pt_quoted := q |}
  | UBad => None
  end.

(** End of the target: a final [.] is dropped, a final [..] removes the
    segment before it. *)
Definition parse_end (ps : pstate) (q : bool) (out : list ascii) : option parsed_target :=
  let ok o := Some {| pt_path := path_of o; pt_args := None; pt_quoted := q |} in
  match ps with
  | PIn UDot => ok (tl out)
  | PIn UDotDot => match dot_dot_back out with Some o => ok o | None => None end
  | PIn _ => ok out
  | PPct _ | PPct2 _ _ => None
  end.

Fixpoint parse_go (ps : pstate) (q : bool) (out : list ascii) (s : string) : option parsed_target :=
  match s with
  | EmptyString => parse_end ps q out
  | String c r =>
      match ps with
      | PIn st =>
          if Ascii.eqb c "%"%char then parse_go (PPct st) true out r
          else after_step (ustep_char st c out) q r (fun st' out' => parse_go (PIn st') q out' r)
      | PPct st =>
          match hex_val c with
          | Some h => parse_go (PPct2 st h) q out r
          | None => None
          end
      | PPct2 st h =>
          match hex_val c with
          | None => None
          | Some lo =>
              let d := ascii_of_nat (h * 16 + lo) in
              if (if is_digit c then Ascii.eqb d "%"%char || Ascii.eqb d "#"%char
                  else Ascii.eqb d "?"%char)
              then parse_go (PIn UUsual) q (d :: out) r
              else if Ascii.eqb d "000"%char then None
              else after_step (ustep_char st d out) q r (fun st' out' => parse_go (PIn st') q out' r)
          end
      end
  end.

Definition target_char_ok (c : ascii) : bool :=
  Nat.leb 33 (nat_of_ascii c) && negb (Nat.eqb (nat_of_ascii c) 127).

Fixpoint all_chars (f : ascii -> bool) (s : string) : bool :=
  match s with
  | EmptyString => true
  | String c r => f c && all_chars f r
  end.

(** The request target as nginx reads it; [None] is a 400 answer. *)
Definition nginx_target (raw : string) : option parsed_target :=
  match raw with
  | String c _ =>
      if Ascii.eqb c "/"%char && all_chars target_char_ok raw
      then parse_go (PIn UUsual) false [] raw
      else None
  | EmptyString => None
  end.

(** ngx_escape_uri with NGX_ESCAPE_URI: blanks, control bytes, [#], [%],
    [?] and bytes from 0x7F up become [%XX] (upper-case hex). *)
Definition uri_escaped (c : ascii) : bool :=
  let n := nat_of_ascii c in
  Nat.leb n 32 || Nat.eqb n 35 || Nat.eqb n 37 || Nat.eqb n 63 || Nat.leb 127 n.

Definition hex_digit (n : nat) : ascii :=
  ascii_of_nat (if Nat.ltb n 10 then 48 + n else 55 + n).

Fixpoint escape_uri (s : string) : string :=
  match s with
  | EmptyString => EmptyString
  | String c r =>
      if uri_escaped c
      then String "%"%char (String (hex_digit (nat_of_ascii c / 16))
                           (String (hex_digit (nat_of_ascii c mod 16)) (escape_uri r)))
      else String c (escape_uri r)
  end.

Definition escape_if (b : bool) (s : string) : string := if b then escape_uri s else s.

(** [?args] when the query is not empty. *)
Definition args_suffix (a : option string) : string :=
  match a with
  | Some x => if String.eqb x EmptyString then EmptyString else "?" ++ x
  | None => EmptyString
  end.

(* ------------------------------------------------------------------ *)
(** ** Content phase, rewrite phase and the request loop *)

Inductive response :=
| Fixed (status : Z) (content_type body : string)  (* listener fixed response *)
| Forwarded (upstream_host uri : string)           (* proxied by nginx *)
| Served (root uri : string)                       (* static file *)
| ServerDefault (uri : string)                     (* no location: server-level handling *)
| NginxError (status : nat)                        (* refused by nginx before any location *)
| RewriteCycle.                                    (* 500: too many URI changes *)

(** What nginx's proxy module reads from the request besides the current
    URI: the target as received while it is still valid
    ([r->valid_unparsed_uri]; a rewrite or an internal redirect clears
    it), the query, and whether the URI must be escaped again
    ([r->quoted_uri || r->internal]). *)
Record nginx_ctx := {
  cx_unparsed : option string;
  cx_args : option string;
  cx_escape : bool
}.

Definition request_ctx (raw : string) (t : parsed_target) : nginx_ctx :=
  {| cx_unparsed := Some raw; cx_args := pt_args t; cx_escape := pt_quoted t |}.

(** A rewrite marks the request internal and the received target stale;
    a replacement without [?] keeps the query. *)
Definition rewritten (cx : nginx_ctx) : nginx_ctx :=
  {| cx_unparsed := None; cx_args := cx_args cx; cx_escape := true |}.

(** The URI proxy_pass sends when it has no URI part: the target as
    received if it is still valid, else the current URI (escaped when
    [cx_escape]) and the query. *)
Definition pass_uri (cx : nginx_ctx) (uri : string) : string :=
  match cx_unparsed cx with
  | Some raw => raw
  | None => escape_if (cx_escape cx) uri ++ args_suffix (cx_args cx)
  end.

(** proxy_pass: without a URI part, [pass_uri]; with one, the part of
    the URI matching the location is replaced by it, unless
    [rewrite ... break] changed the URI in this location, in which case
    the full changed URI is passed (as documented; no location of the site
    file has both). *)
Definition serve (l : location) (cx : nginx_ctx) (uri : string) (changed : bool) : response :=
  match loc_content l with
  | ProxyPass _ host None => Forwarded host (pass_uri cx uri)
  | ProxyPass _ host (Some part) =>
      if changed then Forwarded host (escape_if (cx_escape cx) uri ++ args_suffix (cx_args cx))
      else Forwarded host (part ++ escape_if (cx_escape cx) (drop (pat_len l) uri)
                           ++ args_suffix (cx_args cx))
  | StaticRoot d => Served d uri
  end.

(** One pass: find the location, run its rewrite; [last] searches again,
    [break] stays.  The result lists the URIs searched. *)
Fixpoint nginx_loop (locs : list location) (fuel : nat) (cx : nginx_ctx) (uri : string)
  : response * list string :=
  match fuel with
  | O => (RewriteCycle, [])
  | S f =>
      match find_location locs uri with
      | None => (ServerDefault uri, [uri])
      | Some l =>
          match loc_rewrite l with
          | None => (serve l cx uri false, [uri])
          | Some rw =>
              match rw_apply rw uri with
              | None => (serve l cx uri false, [uri])
              | Some uri' =>
                  match rw_flag rw with
                  | RwBreak => (serve l (rewritten cx) uri' true, [uri])
                  | RwLast => let (res, tr) := nginx_loop locs f (rewritten cx) uri' in (res, uri :: tr)
                  end
              end
          end
      end
  end.

(** A request target: parsed, then the loop on the normalized path. *)
Definition nginx_process (locs : list location) (fuel : nat) (raw : string)
  : response * list string :=
  match nginx_target raw with
  | None => (NginxError 400, [])
  | Some t => nginx_loop locs fuel (request_ctx raw t) (pt_path t)
  end.

(** The location nginx selects first for a request target. *)
Definition selected_location (locs : list location) (raw : string) : option location :=
  match nginx_target raw with
  | Some t => find_location locs (pt_path t)
  | None => None
  end.

(** nginx allows ten URI changes after the first search. *)
Definition max_searches : nat := 11.


(** The outbound value of a header field in a location: the first
    well-formed [proxy_set_header] line for that field, evaluated. *)
Fixpoint header_value (r : proxy_request) (name : string) (lines : list string) : option string :=
  match lines with
  | [] => None
  | ln :: rest =>
      match parse_set_header (config_line ln) with
      | Some (n, v) => if String.eqb n name then Some (nginx_interp (nginx_var r) v)
                      else header_value r name rest
      | None => header_value r name rest
      end
  end.

Definition outbound_header (l : location) (r : proxy_request) (name : string) : option string :=
  header_value r name (loc_headers l).

(** How many well-formed directives of a location set the field. *)
Definition header_count (l : location) (name : string) : nat :=
  length (filter (fun ln => match parse_set_header (config_line ln) with
                            | Some (n, _) => String.eqb n name
                            | None => false end) (loc_headers l)).

(** Directive lines nginx refuses (wrong number of arguments). *)
Definition bad_directives (l : location) : list string :=
  filter (fun ln => match parse_set_header (config_line ln) with
                    | Some _ => false | None => true end) (loc_headers l).

(* ------------------------------------------------------------------ *)
(** ** The HTTPS listener *)

Inductive listener_action :=
| FixedResponseAction (status : Z) (content_type body : string)
| ForwardTo (target_group : string).

Record listener_rule := {
  rule_priority : nat;
  rule_hosts : list string;       (* ListenerCondition.hostHeaders *)
  rule_action : listener_action
}.

Record listener := {
  ls_port : nat;
  ls_protocol : string;
  ls_rules : list listener_rule;  (* in priority order *)
  ls_default : listener_action
}.

(** A host-header condition compares host names without regard to case. *)
Definition host_condition (values : list string) (host : string) : bool :=
  existsb (fun v => String.eqb (lowercase v) (lowercase host)) values.

Fixpoint select_rule (rules : list listener_rule) (host : string) : option listener_rule :=
  match rules with
  | [] => None
  | r :: rs => if host_condition (rule_hosts r) host then Some r else select_rule rs host
  end.

Definition listener_action_for (ls : listener) (host : string) : listener_action :=
  match select_rule (ls_rules ls) host with
  | Some r => rule_action r
  | None => ls_default ls
  end.

Definition https_listener : listener := {|
  ls_port := 443;
  ls_protocol := "HTTPS";
  ls_rules := [ {| rule_priority := 3;
                   rule_hosts := ["www.bim.com.sg"];
                   rule_action := ForwardTo "NginxTargetGroup" |} ];
  ls_default := FixedResponseAction 403 "text/plain" "Forbidden"
|}.

(** A request arriving at the load balancer. *)
Record client_request := {
  cr_host : string;
  cr_path : string;
  cr_client_addr : string;
  cr_xff : option string
}.

(** End to end, for a given nginx location table: the listener in front
    of nginx's handling of the target (the response nginx chooses, before
    the upstream is contacted). *)
Definition dispatch_with (locs : list location) (req : client_request) : response :=
  match listener_action_for https_listener (cr_host req) with
  | FixedResponseAction st ct body => Fixed st ct body
  | ForwardTo _ => fst (nginx_process locs max_searches (cr_path req))
  end.

Definition dispatch (req : client_request) : response := dispatch_with server_locations req.

(** One pass of the phases without a loop, for comparison with
    [nginx_loop]: search once, rewrite at most once, serve. *)
Definition single_pass (locs : list location) (cx : nginx_ctx) (uri : string) : response :=
  match find_location locs uri with
  | None => ServerDefault uri
  | Some l =>
      match match loc_rewrite l with Some rw => rw_apply rw uri | None => None end with
      | Some uri' => serve l (rewritten cx) uri' true
      | None => serve l cx uri false
      end
  end.

(* ------------------------------------------------------------------ *)
(** ** What the client gets back

    The upstream's behaviour and the files on the instance are inputs.
    A proxied request ends in the upstream's reply, or in an nginx error:
    502 when the connection is refused or the reply is broken, 504 when
    the upstream does not connect or answer within the location's
    timeouts.  A static file missing is a 404.  nginx answers an error of
    its own with the site file's [error_page]: 404 by an internal redirect
    to /404.html, 500, 502, 503 and 504 to /50x.html; the redirect runs a
    new location search on that URI (with no query, marked internal), the
    response keeps the original status, and an error during the redirect
    gets nginx's built-in page ([recursive_error_pages] is off).  The
    upstream's own replies are relayed as they are
    ([proxy_intercept_errors] is off). *)

Inductive upstream_result :=
| UpReply (status : nat)
| UpFail
| UpTimeout.

Inductive answer :=
| AnsListener (status : Z) (content_type body : string)  (* the listener's fixed response *)
| AnsLoadBalancer (status : nat)                       (* the load balancer's own error *)
| AnsUpstream (host uri : string) (status : nat)         (* an upstream's reply, relayed *)
| AnsFile (path : string) (status : nat)                 (* a static file *)
| AnsBuiltin (status : nat).                             (* nginx's built-in error page *)

Definition content_result (up : string -> string -> upstream_result) (files : string -> bool)
  (res : response) : answer + nat :=
  match res with
  | Fixed st ct body => inl (AnsListener st ct body)
  | Forwarded h u =>
      match up h u with
      | UpReply st => inl (AnsUpstream h u st)
      | UpFail => inr 502
      | UpTimeout => inr 504
      end
  | Served d u => if files (d ++ u) then inl (AnsFile (d ++ u) 200) else inr 404
  | ServerDefault _ => inr 404
  | NginxError st => inr st
  | RewriteCycle => inr 500
  end.

(** error_page 404 /404.html; error_page 500 502 503 504 /50x.html; *)
Definition error_page (st : nat) : option string :=
  if Nat.eqb st 404 then Some "/404.html"
  else if Nat.eqb st 500 || Nat.eqb st 502 || Nat.eqb st 503 || Nat.eqb st 504
  then Some "/50x.html"
  else None.

Definition error_ctx : nginx_ctx := {| cx_unparsed := None; cx_args := None; cx_escape := true |}.

Definition with_status (st : nat) (a : answer) : answer :=
  match a with
  | AnsUpstream h u _ => AnsUpstream h u st
  | AnsFile p _ => AnsFile p st
  | _ => a
  end.

(** nginx's answer to a request target, with the URIs it searched. *)
Definition nginx_answer (locs : list location) (up : string -> string -> upstream_result)
  (files : string -> bool) (raw : string) : answer * list string :=
  let (res, tr) := nginx_process locs max_searches raw in
  match content_result up files res with
  | inl a => (a, tr)
  | inr st =>
      match error_page st with
      | None => (AnsBuiltin st, tr)
      | Some target =>
          let (res2, tr2) := nginx_loop locs max_searches error_ctx target in
          match content_result up files res2 with
          | inl a => (with_status st a, (tr ++ tr2)%list)
          | inr st2 => (AnsBuiltin st2, (tr ++ tr2)%list)
          end
      end
  end.

(** The boot script runs [nginx -t] and [systemctl restart nginx]; both
    refuse a site file with a malformed directive.  The restart stops the
    running nginx and fails to start the new one, so nothing listens on
    port 80: the load balancer's connections to its only target are
    refused and it answers 502 itself. *)
Definition site_file_accepted : bool :=
  forallb (fun l => match bad_directives l with [] => true | _ :: _ => false end)
          server_locations.

Definition stack_answer (up : string -> string -> upstream_result) (files : string -> bool)
  (req : client_request) : answer :=
  match listener_action_for https_listener (cr_host req) with
  | FixedResponseAction st ct body => AnsListener st ct body
  | ForwardTo _ =>
      if site_file_accepted then fst (nginx_answer server_locations up files (cr_path req))
      else AnsLoadBalancer 502
  end.

(** Requests used below. *)
Definition req_upper_host : client_request := {|
  cr_host := "WWW.BIM.COM.SG"; cr_path := "/"; cr_client_addr := "198.51.100.4"; cr_xff := None |}.

Definition req_anything : client_request := {|
  cr_host := "www.bim.com.sg"; cr_path := "/anything-else";
  cr_client_addr := "198.51.100.4"; cr_xff := None |}.


(* ------------------------------------------------------------------ *)
(** ** Character classes of the heredoc *)

(** Text the heredoc passes through untouched: no backslash, no [$]. *)
Definition plain (s : string) : bool := negb (has_char bslash s) && negb (has_char dollar s).

Definition name_char (c : ascii) : bool := is_alpha c || is_underscore c || is_digit c.

Fixpoint all_name_chars (s : string) : bool :=
  match s with
  | EmptyString => true
  | String c r => name_char c && all_name_chars r
  end.

(** A shell variable name. *)
Definition is_name (n : string) : bool :=
  match n with
  | EmptyString => false
  | String c r => (is_alpha c || is_underscore c) && all_name_chars r
  end.

(** The text after a variable name does not extend the name. *)
Definition name_boundary (s : string) : bool :=
  match s with
  | EmptyString => true
  | String c _ => negb (name_char c)
  end.

(** The heredoc transducer run over a chunk, without finishing: its
    output and the mode it ends in. *)
Fixpoint hscan (env : string -> string) (m : hmode) (s : string) : string * hmode :=
  match s with
  | EmptyString => (EmptyString, m)
  | String c r =>
      let (o, m') := hstep env m c in
      let (o2, m2) := hscan env m' r in (o ++ o2, m2)
  end.

(* ------------------------------------------------------------------ *)
(** ** The rest of the stack: security groups, target group, certificate *)

Inductive peer := AnyIpv4 | SgPeer (group : string).

(** [addIngressRule(peer, Port.tcp(port), description)] *)
Record ingress_rule := {
  ir_peer : peer;
  ir_port : nat;
  ir_description : string
}.

Record security_group := {
  sg_name : string;
  sg_description : string;
  sg_allow_all_outbound : bool;
  sg_ingress : list ingress_rule
}.

Definition alb_security_group : security_group := {|
  sg_name := "AlbSecurityGroup";
  sg_description := "Security group for ALB";
  sg_allow_all_outbound := true;
  sg_ingress := [ {| ir_peer := AnyIpv4; ir_port := 443; ir_description := "Allow HTTPS traffic" |} ]
|}.

Definition ec2_security_group : security_group := {|
  sg_name := "NginxSecurityGroup";
  sg_description := "Security group for Nginx instance";
  sg_allow_all_outbound := true;
  sg_ingress := [ {| ir_peer := SgPeer (sg_name alb_security_group); ir_port := 80;
                     ir_description := "Allow HTTP traffic from ALB" |} ]
|}.

(** The origin of an inbound TCP connection: whether it is IPv4, and the
    security groups of the network interface it comes from. *)
Record source := {
  src_ipv4 : bool;
  src_groups : list string
}.

Definition peer_admits (p : peer) (src : source) : bool :=
  match p with
  | AnyIpv4 => src_ipv4 src
  | SgPeer g => existsb (String.eqb g) (src_groups src)
  end.

(** Security groups are allow lists: a connection is admitted when some
    ingress rule admits its source on its TCP port. *)
Definition sg_admits (sg : security_group) (src : source) (port : nat) : bool :=
  existsb (fun r => peer_admits (ir_peer r) src && Nat.eqb (ir_port r) port) (sg_ingress sg).

(** The load balancer's nodes carry its security group. *)
Definition alb_source : source := {| src_ipv4 := true; src_groups := [sg_name alb_security_group] |}.

Record target_group := {
  tg_port : nat;
  tg_protocol : string;
  tg_hc_path : string;
  tg_hc_codes : string
}.

Definition nginx_target_group : target_group := {|
  tg_port := 80;
  tg_protocol := "HTTP";
  tg_hc_path := "/";
  tg_hc_codes := "200-399"
|}.

Record certificate := {
  cert_domain : string;
  cert_validation : string
}.

Definition nginx_certificate : certificate := {|
  cert_domain := "www.bim.com.sg";
  cert_validation := "DNS"
|}.

(** A certificate for a single name (no wildcard, no alternative names)
    covers that host name, compared without case. *)
Definition cert_covers (c : certificate) (host : string) : bool :=
  String.eqb (lowercase (cert_domain c)) (lowercase host).

(** Split at every occurrence of a character. *)
Fixpoint split_go (sep : ascii) (cur : string) (s : string) : list string :=
  match s with
  | EmptyString => [cur]
  | String d r => if Ascii.eqb d sep then cur :: split_go sep EmptyString r
                  else split_go sep (cur ++ str1 d) r
  end.

Definition split_on (sep : ascii) (s : string) : list string := split_go sep EmptyString s.

Fixpoint dec_go (acc : nat) (s : string) : option nat :=
  match s with
  | EmptyString => Some acc
  | String d r => if is_digit d then dec_go (acc * 10 + (nat_of_ascii d - 48)) r else None
  end.

(** A non-empty decimal numeral. *)
Definition dec (s : string) : option nat :=
  match s with EmptyString => None | _ => dec_go 0 s end.

(** One entry of a success-code matcher: a code or a range lo-hi. *)
Definition parse_code_range (s : string) : option (nat * nat) :=
  match split_on "-"%char s with
  | [a] => match dec a with Some v => Some (v, v) | None => None end
  | [a; b] => match dec a, dec b with Some x, Some y => Some (x, y) | _, _ => None end
  | _ => None
  end.

(** [healthyHttpCodes]: entries separated by commas. *)
Fixpoint parse_ranges (parts : list string) : option (list (nat * nat)) :=
  match parts with
  | [] => Some []
  | p :: ps => match parse_code_range p, parse_ranges ps with
               | Some r, Some rs => Some (r :: rs)
               | _, _ => None
               end
  end.

Definition parse_http_codes (s : string) : option (list (nat * nat)) :=
  parse_ranges (split_on ","%char s).

Definition code_matches (ranges : list (nat * nat)) (c : nat) : bool :=
  existsb (fun r => Nat.leb (fst r) c && Nat.leb c (snd r)) ranges.

(** A health-check reply with status [c] marks the target healthy. *)
Definition target_healthy (tg : target_group) (c : nat) : bool :=
  match parse_http_codes (tg_hc_codes tg) with
  | Some rs => code_matches rs c
  | None => false
  end.

(* ================================================================== *)
(** * Facts about the model *)

Section StringFacts.

Lemma starts_with_app (pre p : string) :
  starts_with pre p = true <-> exists r, p = pre ++ r.
Proof.
  revert p; induction pre as [|a pre IH]; intros p; split.
  - intros _. exists p. reflexivity.
  - intros _. reflexivity.
  - destruct p as [|b p]; simpl; [discriminate|].
    intros H. apply andb_prop in H as [Hab Hp].
    apply Ascii.eqb_eq in Hab; subst b.
    apply IH in Hp as [r ->]. exists r. reflexivity.
  - intros [r ->]. simpl. rewrite Ascii.eqb_refl. apply IH. exists r. reflexivity.
Qed.

Lemma app_assoc_str (a b c : string) : (a ++ b) ++ c = a ++ (b ++ c).
Proof. induction a as [|x a IH]; simpl; [reflexivity | now rewrite IH]. Qed.

Lemma app_nil_r_str (a : string) : a ++ EmptyString = a.
Proof. induction a as [|x a IH]; simpl; [reflexivity | now rewrite IH]. Qed.

Lemma starts_with_app_l (a b p : string) :
  starts_with (a ++ b) p = true -> starts_with a p = true.
Proof.
  intros H. apply starts_with_app in H as [r ->].
  apply starts_with_app. exists (b ++ r). apply app_assoc_str.
Qed.


End StringFacts.

(** ** The request target *)

Section TargetFacts.









End TargetFacts.

(** ** Location search *)

Section LocationSearch.

Lemma find_exact_spec (locs : list location) (uri : string) (l : location) :
  find_exact locs uri = Some l -> In l locs /\ exact_hit l uri = true.
Proof.
  induction locs as [|a ls IH]; simpl; [discriminate|].
  destruct (exact_hit a uri) eqn:Ha.
  - intros H; injection H as <-. auto.
  - intros H. destruct (IH H). auto.
Qed.

Lemma better_cases (uri : string) (best : option location) (a l : location) :
  better uri best a = Some l ->
  (l = a /\ prefix_hit a uri = true) \/ best = Some l.
Proof.
  unfold better. destruct (prefix_hit a uri) eqn:Ha; [|auto].
  destruct best as [b|].
  - destruct (Nat.ltb (pat_len b) (pat_len a)); intros H; injection H as <-; auto.
  - intros H; injection H as <-; auto.
Qed.

Lemma better_grows (uri : string) (best : option location) (a b : location) :
  best = Some b -> exists l, better uri best a = Some l /\ pat_len b <= pat_len l.
Proof.
  intros ->. unfold better. destruct (prefix_hit a uri); [|eauto].
  destruct (Nat.ltb (pat_len b) (pat_len a)) eqn:H.
  - apply Nat.ltb_lt in H. exists a. split; [reflexivity | lia].
  - eauto.
Qed.

Lemma better_hit (uri : string) (best : option location) (a : location) :
  prefix_hit a uri = true -> exists l, better uri best a = Some l /\ pat_len a <= pat_len l.
Proof.
  intros Ha. unfold better. rewrite Ha. destruct best as [b|]; [|eauto].
  destruct (Nat.ltb (pat_len b) (pat_len a)) eqn:H.
  - eauto.
  - apply Nat.ltb_ge in H. eauto.
Qed.

(** The longest-prefix scan returns the starting candidate or a hitting
    location of the list, no shorter than the candidate or any hit. *)
Lemma longest_prefix_spec (uri : string) (locs : list location) :
  forall best l, longest_prefix uri best locs = Some l ->
  (best = Some l \/ (In l locs /\ prefix_hit l uri = true)) /\
  (forall b, best = Some b -> pat_len b <= pat_len l) /\
  (forall l', In l' locs -> prefix_hit l' uri = true -> pat_len l' <= pat_len l).
Proof.
  induction locs as [|a ls IH]; simpl; intros best l H.
  - subst best. split; [auto|]. split; [intros b Hb; injection Hb as ->; lia | tauto].
  - destruct (IH _ _ H) as [Hsrc [Hbest Hall]]. split; [|split].
    + destruct Hsrc as [Hb|Hin]; [|tauto].
      apply better_cases in Hb as [[-> Ha]|Hb]; auto.
    + intros b Hb. destruct (better_grows uri best a b Hb) as [m [Hm Hle]].
      specialize (Hbest m Hm). lia.
    + intros l' [->|Hin] Hhit; [|auto].
      destruct (better_hit uri best l' Hhit) as [m [Hm Hle]].
      specialize (Hbest m Hm). lia.
Qed.

(** nginx's choice: an exact location equal to the URI, else the longest
    matching prefix. *)
Lemma find_location_spec (locs : list location) (uri : string) (l : location) :
  find_location locs uri = Some l ->
  In l locs /\
  (exact_hit l uri = true \/
   (find_exact locs uri = None /\ prefix_hit l uri = true /\
    forall l', In l' locs -> prefix_hit l' uri = true -> pat_len l' <= pat_len l)).
Proof.
  unfold find_location. destruct (find_exact locs uri) as [e|] eqn:He.
  - intros H; injection H as <-. apply find_exact_spec in He. tauto.
  - intros H. destruct (longest_prefix_spec uri locs None l H) as [[Hn|[Hin Hhit]] [_ Hall]];
      [discriminate|]. split; [exact Hin|]. right. auto.
Qed.

Lemma find_location_in (locs : list location) (uri : string) (l : location) :
  find_location locs uri = Some l -> In l locs.
Proof. intros H. apply find_location_spec in H. tauto. Qed.

Lemma next_prefix_root (p : string) :
  starts_with "/_next/" p = true -> starts_with "/" p = true.
Proof. apply (starts_with_app_l "/" "_next/"). Qed.

Lemma jobs_prefix_root (p : string) :
  starts_with "/jobs" p = true -> starts_with "/" p = true.
Proof. apply (starts_with_app_l "/" "jobs"). Qed.

Lemma next_not_jobs (p : string) :
  starts_with "/_next/" p = true -> starts_with "/jobs" p = false.
Proof. intros H. apply starts_with_app in H as [r ->]. reflexivity. Qed.

Lemma next_not_50x (p : string) :
  starts_with "/_next/" p = true -> String.eqb "/50x.html" p = false.
Proof. intros H. apply starts_with_app in H as [r ->]. reflexivity. Qed.

Lemma jobs_not_50x (p : string) :
  starts_with "/jobs" p = true -> String.eqb "/50x.html" p = false.
Proof. intros H. apply starts_with_app in H as [r ->]. reflexivity. Qed.

(** Split on the four patterns of the site file, rewriting the goal with
    the consistent truth values. *)
Ltac route_cases p :=
  let E := fresh "E" in let N := fresh "N" in
  let J := fresh "J" in let R := fresh "R" in
  destruct (String.eqb "/50x.html" p) eqn:E;
  [ apply String.eqb_eq in E; subst p; reflexivity
  | destruct (starts_with "/_next/" p) eqn:N;
    [ pose proof (next_not_jobs p N) as J; pose proof (next_prefix_root p N) as R
    | destruct (starts_with "/jobs" p) eqn:J;
      [ pose proof (jobs_prefix_root p J) as R
      | destruct (starts_with "/" p) eqn:R ] ] ];
  try rewrite E; try rewrite N; try rewrite J; try rewrite R; reflexivity.

(** The table of the site file, resolved. *)
Lemma find_location_server (p : string) :
  find_location server_locations p =
  if String.eqb "/50x.html" p then Some loc_50x
  else if starts_with "/_next/" p then Some loc_next
  else if starts_with "/jobs" p then Some loc_jobs
  else if starts_with "/" p then Some loc_root
  else None.
Proof.
  unfold find_location, server_locations; simpl find_exact; simpl longest_prefix.
  unfold better, exact_hit, prefix_hit, pat_len; cbn -[starts_with String.eqb].
  route_cases p.
Qed.












End LocationSearch.

(** ** Request processing and the listener *)

Section Processing.




(** With only [break] rewrites, nginx searches the locations once. *)
Lemma nginx_loop_once (locs : list location) (f : nat) (cx : nginx_ctx) (uri : string) :
  (forall l rw, In l locs -> loc_rewrite l = Some rw -> rw_flag rw = RwBreak) ->
  nginx_loop locs (S f) cx uri = (single_pass locs cx uri, [uri]).
Proof.
  intros Hbreak. unfold single_pass. simpl.
  destruct (find_location locs uri) as [l|] eqn:F; [|reflexivity].
  destruct (loc_rewrite l) as [rw|] eqn:Hrw; [|reflexivity].
  destruct (rw_apply rw uri) as [uri'|]; [|reflexivity].
  rewrite (Hbreak l rw (find_location_in _ _ _ F) Hrw). reflexivity.
Qed.

Lemma server_rewrites_break (l : location) (rw : rewrite_rule) :
  In l server_locations -> loc_rewrite l = Some rw -> rw_flag rw = RwBreak.
Proof.
  simpl. intros [<-|[<-|[<-|[<-|[]]]]]; simpl; try discriminate.
  intros H; injection H as <-. reflexivity.
Qed.

Lemma server_loop (cx : nginx_ctx) (uri : string) :
  nginx_loop server_locations max_searches cx uri = (single_pass server_locations cx uri, [uri]).
Proof. apply nginx_loop_once. exact server_rewrites_break. Qed.

Lemma server_process (raw : string) :
  nginx_process server_locations max_searches raw =
  match nginx_target raw with
  | None => (NginxError 400, [])
  | Some t => (single_pass server_locations (request_ctx raw t) (pt_path t), [pt_path t])
  end.
Proof. unfold nginx_process. destruct (nginx_target raw); [apply server_loop | reflexivity]. Qed.




Lemma listener_action_https (h : string) :
  listener_action_for https_listener h =
  if String.eqb (lowercase h) "www.bim.com.sg" then ForwardTo "NginxTargetGroup"
  else FixedResponseAction 403 "text/plain" "Forbidden".
Proof.
  unfold listener_action_for, https_listener.
  cbn [ls_rules select_rule rule_hosts rule_action ls_default].
  unfold host_condition. cbn [existsb].
  change (lowercase "www.bim.com.sg") with "www.bim.com.sg".
  rewrite orb_false_r, String.eqb_sym.
  destruct (String.eqb (lowercase h) "www.bim.com.sg"); reflexivity.
Qed.

Lemma dispatch_with_unfold (locs : list location) (req : client_request) :
  dispatch_with locs req =
  if String.eqb (lowercase (cr_host req)) "www.bim.com.sg"
  then fst (nginx_process locs max_searches (cr_path req))
  else Fixed 403 "text/plain" "Forbidden".
Proof.
  unfold dispatch_with. rewrite listener_action_https.
  destruct (String.eqb (lowercase (cr_host req)) "www.bim.com.sg"); reflexivity.
Qed.


Lemma single_pass_server (cx : nginx_ctx) (p : string) :
  single_pass server_locations cx p =
  if String.eqb "/50x.html" p then Served "/usr/share/nginx/html" p
  else if starts_with "/_next/" p then
    Forwarded "jobs.bimeco.io"
      ("/_next/" ++ escape_if (cx_escape cx) (drop 7 p) ++ args_suffix (cx_args cx))
  else if starts_with "/jobs" p then
    match jobs_rx p with
    | Some g => Forwarded "jobs.bimeco.io" (escape_uri ("/career" ++ g) ++ args_suffix (cx_args cx))
    | None => Forwarded "jobs.bimeco.io" (pass_uri cx p)
    end
  else if starts_with "/" p then Forwarded "www.bim.com.sg" (pass_uri cx p)
  else ServerDefault p.
Proof.
  unfold single_pass. rewrite find_location_server.
  destruct (String.eqb "/50x.html" p); [reflexivity|].
  destruct (starts_with "/_next/" p); [reflexivity|].
  destruct (starts_with "/jobs" p).
  { cbn [loc_rewrite loc_jobs jobs_rewrite rw_apply]. destruct (jobs_rx p); reflexivity. }
  destruct (starts_with "/" p); reflexivity.
Qed.


End Processing.

(* ================================================================== *)
(** * The routing policy

    The statements below are about the site file as nginx reads it.  That
    nginx refuses the generated file (the defect shown for C4), so that
    requests with Host www.bim.com.sg get the load balancer's 502 as
    deployed, is stated separately at the end of the file. *)








(** C4 (code defect): in location / the header values are written with a
    bare $, which the unquoted heredoc expands to the empty string; the
    three directives lose their value argument, so the catch-all route
    carries no X-Forwarded-For nor X-Forwarded-Proto, whereas the /jobs
    and /_next/ blocks, which escape the $, carry both, each set once. *)
Theorem root_forwarded_headers_lost :
  config_line "        proxy_set_header X-Forwarded-For $proxy_add_x_forwarded_for;" =
    "        proxy_set_header X-Forwarded-For ;" /\
  nginx_tokens (config_line "        proxy_set_header X-Forwarded-For $proxy_add_x_forwarded_for;") =
    ["proxy_set_header"; "X-Forwarded-For"] /\
  bad_directives loc_root =
    [ "        proxy_set_header X-Real-IP $remote_addr;";
      "        proxy_set_header X-Forwarded-For $proxy_add_x_forwarded_for;";
      "        proxy_set_header X-Forwarded-Proto $scheme;" ] /\
  (forall r, outbound_header loc_root r "Host" = Some "www.bim.com.sg" /\
             outbound_header loc_root r "X-Forwarded-For" = None /\
             outbound_header loc_root r "X-Forwarded-Proto" = None) /\
  (forall r, outbound_header loc_jobs r "Host" = Some "jobs.bimeco.io" /\
             outbound_header loc_jobs r "X-Forwarded-For" =
               Some match pr_xff r with
                    | None => pr_remote_addr r
                    | Some x => x ++ ", " ++ pr_remote_addr r
                    end /\
             outbound_header loc_jobs r "X-Forwarded-Proto" = Some (pr_scheme r)) /\
  header_count loc_jobs "X-Forwarded-For" = 1 /\
  header_count loc_jobs "X-Forwarded-Proto" = 1.
Proof.
  split; [reflexivity|]. split; [reflexivity|]. split; [reflexivity|].
  split; [intros r; split; [reflexivity | split; reflexivity]|].
  split; [|split; reflexivity].
  intros [u h a sc x]. destruct x; (split; [reflexivity | split; reflexivity]).
Qed.

(** C5 (counterexample): the target /_next/../chunk.js begins with
    /_next/, but nginx resolves it to /chunk.js and forwards it to
    www.bim.com.sg; and /_next//x is forwarded to jobs.bimeco.io as
    /_next/x, not at the same path. *)
Lemma next_static_counterexample :
  starts_with "/_next/" "/_next/../chunk.js" = true /\
  fst (nginx_process server_locations max_searches "/_next/../chunk.js") =
    Forwarded "www.bim.com.sg" "/_next/../chunk.js" /\
  fst (nginx_process server_locations max_searches "/_next//x") =
    Forwarded "jobs.bimeco.io" "/_next/x".
Proof. split; [reflexivity|]. split; vm_compute; reflexivity. Qed.

(** C5 (amended): a target whose normalized path is /_next/S selects the
    /_next/ block and is forwarded to jobs.bimeco.io as /_next/S (S
    escaped again when the target held escapes), with the query appended
    and with Host jobs.bimeco.io whatever the request. *)
Theorem next_static_forwarded (raw s : string) (t : parsed_target) :
  nginx_target raw = Some t -> pt_path t = "/_next/" ++ s ->
  selected_location server_locations raw = Some loc_next /\
  fst (nginx_process server_locations max_searches raw) =
    Forwarded "jobs.bimeco.io" ("/_next/" ++ escape_if (pt_quoted t) s ++ args_suffix (pt_args t)) /\
  (forall r, outbound_header loc_next r "Host" = Some "jobs.bimeco.io").
Proof.
  intros Ht Hp.
  assert (F : find_location server_locations (pt_path t) = Some loc_next)
    by (rewrite Hp, find_location_server; reflexivity).
  split; [unfold selected_location; rewrite Ht; exact F|].
  split; [|reflexivity].
  rewrite server_process, Ht. cbn [fst]. rewrite single_pass_server, Hp. reflexivity.
Qed.

Lemma next_static_forwarded_witness :
  selected_location server_locations "/_next/static/chunk.js?v=3" = Some loc_next /\
  fst (nginx_process server_locations max_searches "/_next/static/chunk.js?v=3") =
    Forwarded "jobs.bimeco.io"
      ("/_next/" ++ escape_if false "static/chunk.js" ++ args_suffix (Some "v=3")) /\
  (forall r, outbound_header loc_next r "Host" = Some "jobs.bimeco.io").
Proof.
  apply (next_static_forwarded "/_next/static/chunk.js?v=3" "static/chunk.js"
           {| pt_path := "/_next/static/chunk.js"; pt_args := Some "v=3"; pt_quoted := false |});
    reflexivity.
Defined.




(** C7 (counterexample): the Host WWW.BIM.COM.SG differs from the string
    www.bim.com.sg, yet the request is forwarded, not answered 403. *)
Lemma host_case_counterexample :
  ~ (forall req, cr_host req <> "www.bim.com.sg" ->
                 dispatch req = Fixed 403 "text/plain" "Forbidden").
Proof.
  intros H. assert (Hne : cr_host req_upper_host <> "www.bim.com.sg") by discriminate.
  specialize (H req_upper_host Hne). vm_compute in H. discriminate.
Qed.

(** C7 (amended): the listener answers the fixed 403 "Forbidden" to every
    request whose Host, compared without regard to case, is not
    www.bim.com.sg, whatever its path, and passes every other request to
    nginx's route table. *)
Theorem listener_host_gate (req : client_request) :
  dispatch req =
  if String.eqb (lowercase (cr_host req)) "www.bim.com.sg"
  then fst (nginx_process server_locations max_searches (cr_path req))
  else Fixed 403 "text/plain" "Forbidden".
Proof. apply dispatch_with_unfold. Qed.



(** C10: route selection and the response depend only on the path (and,
    at the listener, on the Host compared without case): two requests
    that agree on these get the same route and the same response, whatever
    their client address or forwarding chain. *)
Theorem selection_deterministic (locs : list location) (r1 r2 : client_request) :
  cr_path r1 = cr_path r2 ->
  String.eqb (lowercase (cr_host r1)) "www.bim.com.sg" =
    String.eqb (lowercase (cr_host r2)) "www.bim.com.sg" ->
  find_location locs (cr_path r1) = find_location locs (cr_path r2) /\
  dispatch_with locs r1 = dispatch_with locs r2.
Proof.
  intros Hp Hh. split; [now rewrite Hp|].
  rewrite !dispatch_with_unfold, Hp, Hh. reflexivity.
Qed.

Lemma selection_deterministic_witness :
  find_location server_locations (cr_path req_anything) =
    find_location server_locations (cr_path {| cr_host := "WWW.Bim.com.sg";
        cr_path := "/anything-else"; cr_client_addr := "203.0.113.9";
        cr_xff := Some "192.0.2.1" |}) /\
  dispatch req_anything =
    dispatch {| cr_host := "WWW.Bim.com.sg"; cr_path := "/anything-else";
                cr_client_addr := "203.0.113.9"; cr_xff := Some "192.0.2.1" |}.
Proof.
  apply (selection_deterministic server_locations req_anything
           {| cr_host := "WWW.Bim.com.sg"; cr_path := "/anything-else";
              cr_client_addr := "203.0.113.9"; cr_xff := Some "192.0.2.1" |});
    reflexivity.
Defined.

(* ================================================================== *)
(** * Further properties of the stack *)

(** ** The text pipeline *)

Section Pipeline.

Lemma has_char_app (c : ascii) (a b : string) :
  has_char c (a ++ b) = has_char c a || has_char c b.
Proof.
  induction a as [|d a IH]; cbn [has_char append]; [reflexivity|].
  rewrite IH. apply orb_assoc.
Qed.

Lemma js_cook_nobs (s : string) : has_char bslash s = false -> js_cook s = s.
Proof.
  induction s as [|c s IH]; cbn [has_char js_cook]; intros H; [reflexivity|].
  apply orb_false_iff in H as [Hc Hs].
  rewrite Ascii.eqb_sym, Hc, IH by exact Hs. reflexivity.
Qed.

Lemma js_cook_app_nobs (a b : string) :
  has_char bslash a = false -> js_cook (a ++ b) = a ++ js_cook b.
Proof.
  induction a as [|c a IH]; cbn [has_char js_cook append]; intros H; [reflexivity|].
  apply orb_false_iff in H as [Hc Ha].
  rewrite Ascii.eqb_sym, Hc, IH by exact Ha. reflexivity.
Qed.

Lemma hrun_app (env : string -> string) (m : hmode) (a b : string) :
  hrun env m (a ++ b) = fst (hscan env m a) ++ hrun env (snd (hscan env m a)) b.
Proof.
  revert m; induction a as [|c a IH]; intros m; [reflexivity|].
  cbn [append hrun hscan]. destruct (hstep env m c) as [o m'].
  rewrite IH. destruct (hscan env m' a) as [o2 m2]. simpl. apply eq_sym, app_assoc_str.
Qed.

Lemma plain_cons (c : ascii) (s : string) :
  plain (String c s) = true ->
  Ascii.eqb c bslash = false /\ Ascii.eqb c dollar = false /\ plain s = true.
Proof.
  unfold plain. cbn [has_char]. rewrite !negb_orb.
  intros H. apply andb_prop in H as [H1 H2]. apply andb_prop in H1 as [Hb Hbs].
  apply andb_prop in H2 as [Hd Hds].
  apply negb_true_iff in Hb, Hd. rewrite Ascii.eqb_sym in Hb, Hd.
  split; [exact Hb|]. split; [exact Hd|]. rewrite Hbs, Hds. reflexivity.
Qed.

Lemma hstep_plain_char (env : string -> string) (c : ascii) :
  Ascii.eqb c bslash = false -> Ascii.eqb c dollar = false ->
  hstep env HPlain c = (str1 c, HPlain).
Proof. intros Hb Hd. unfold hstep, hstep_plain. rewrite Hb, Hd. reflexivity. Qed.

Lemma hscan_plain (env : string -> string) (s : string) :
  plain s = true -> hscan env HPlain s = (s, HPlain).
Proof.
  induction s as [|c s IH]; intros H; [reflexivity|].
  apply plain_cons in H as [Hb [Hd Hs]]. cbn [hscan].
  rewrite hstep_plain_char by assumption. rewrite IH by exact Hs. reflexivity.
Qed.

Lemma hrun_plain (env : string -> string) (s : string) :
  plain s = true -> hrun env HPlain s = s.
Proof.
  induction s as [|c s IH]; intros H; [reflexivity|].
  apply plain_cons in H as [Hb [Hd Hs]]. cbn [hrun].
  rewrite hstep_plain_char by assumption. rewrite IH by exact Hs. reflexivity.
Qed.

Lemma hscan_name (env : string -> string) (n s : string) :
  all_name_chars s = true -> hscan env (HName n) s = (EmptyString, HName (n ++ s)).
Proof.
  revert n; induction s as [|c s IH]; intros n H.
  - cbn. rewrite app_nil_r_str. reflexivity.
  - cbn [all_name_chars] in H. apply andb_prop in H as [Hc Hs].
    cbn [hscan]. unfold hstep. unfold name_char in Hc. rewrite Hc.
    rewrite IH by exact Hs. rewrite app_assoc_str. reflexivity.
Qed.

Lemma name_char_not_special (c : ascii) :
  name_char c = true -> Ascii.eqb c bslash = false /\ Ascii.eqb c dollar = false.
Proof.
  destruct c as [[] [] [] [] [] [] [] []]; vm_compute; intros H;
    first [discriminate H | split; reflexivity].
Qed.

Lemma name_chars_plain (s : string) : all_name_chars s = true -> plain s = true.
Proof.
  induction s as [|c s IH]; [reflexivity|]. cbn [all_name_chars].
  intros H. apply andb_prop in H as [Hc Hs].
  destruct (name_char_not_special c Hc) as [Hb Hd].
  unfold plain in *. cbn [has_char]. rewrite (Ascii.eqb_sym bslash), (Ascii.eqb_sym dollar), Hb, Hd.
  exact (IH Hs).
Qed.

Lemma is_name_plain (n : string) : is_name n = true -> plain n = true.
Proof.
  destruct n as [|c r]; [discriminate|]. cbn [is_name]. intros H.
  apply name_chars_plain. cbn [all_name_chars]. apply andb_prop in H as [Hc Hr].
  unfold name_char. rewrite Hc, Hr. reflexivity.
Qed.

Lemma plain_app (a b : string) : plain (a ++ b) = plain a && plain b.
Proof.
  unfold plain. rewrite !has_char_app, !negb_orb.
  destruct (has_char bslash a), (has_char bslash b), (has_char dollar a), (has_char dollar b);
    reflexivity.
Qed.

Lemma plain_nobs (s : string) : plain s = true -> has_char bslash s = false.
Proof. unfold plain. intros H. apply andb_prop in H as [H _]. now apply negb_true_iff. Qed.

End Pipeline.

(** Text free of backslashes and [$] reaches the site file unchanged. *)
Theorem plain_line_verbatim (s : string) : plain s = true -> config_line s = s.
Proof.
  intros H. unfold config_line, config_line_env, single_quoted, heredoc_expand.
  rewrite js_cook_nobs by (apply plain_nobs; exact H). apply hrun_plain. exact H.
Qed.

Lemma plain_line_verbatim_witness :
  config_line "        proxy_pass https://www.bim.com.sg;" = "        proxy_pass https://www.bim.com.sg;".
Proof. apply plain_line_verbatim. reflexivity. Defined.

(** A variable written [\\$name] in the template reaches nginx as [$name]. *)
Theorem escaped_variable_reaches_nginx (pre n post : string) :
  plain pre = true -> is_name n = true -> plain post = true ->
  config_line (pre ++ "\\$" ++ n ++ post) = pre ++ "$" ++ n ++ post.
Proof.
  intros Hpre Hn Hpost. unfold config_line, config_line_env, single_quoted, heredoc_expand.
  assert (Hnp : plain (n ++ post) = true) by (rewrite plain_app, is_name_plain, Hpost; auto).
  rewrite js_cook_app_nobs by (apply plain_nobs; exact Hpre).
  assert (E1 : forall Y, js_cook ("\\$" ++ Y) = String bslash (String "$"%char (js_cook Y)))
    by reflexivity.
  assert (E2 : forall Y, hrun boot_env HPlain (String bslash (String "$"%char Y)) =
                         String "$"%char (hrun boot_env HPlain Y)) by reflexivity.
  rewrite E1, js_cook_nobs by (apply plain_nobs; exact Hnp).
  rewrite hrun_app, hscan_plain by exact Hpre. cbn [fst snd].
  f_equal. rewrite E2, hrun_plain by exact Hnp. reflexivity.
Qed.

Lemma escaped_variable_reaches_nginx_witness :
  config_line ("        proxy_set_header X-Real-IP " ++ "\\$" ++ "remote_addr" ++ ";") =
    "        proxy_set_header X-Real-IP " ++ "$" ++ "remote_addr" ++ ";".
Proof. apply escaped_variable_reaches_nginx; reflexivity. Defined.

(** A variable written with a bare [$name] is expanded by the heredoc:
    the line reaches nginx with the shell's value of [name] in its place.
    The boot shell sets none of the names the site file uses, so there
    the variable vanishes. *)
Theorem bare_variable_expanded (env : string -> string) (pre n post : string) :
  plain pre = true -> is_name n = true -> plain post = true -> name_boundary post = true ->
  config_line_env env (pre ++ "$" ++ n ++ post) = pre ++ env n ++ post.
Proof.
  intros Hpre Hn Hpost Hbd. unfold config_line_env, single_quoted, heredoc_expand.
  assert (Hnp : plain (n ++ post) = true) by (rewrite plain_app, is_name_plain, Hpost; auto).
  rewrite js_cook_nobs.
  2:{ rewrite has_char_app, (plain_nobs pre Hpre).
       change (has_char bslash ("$" ++ n ++ post)) with (false || has_char bslash (n ++ post)).
       rewrite (plain_nobs _ Hnp). reflexivity. }
  rewrite hrun_app, hscan_plain by exact Hpre. cbn [fst snd]. f_equal.
  cbn [hrun append]. change (hstep env HPlain "$"%char) with (EmptyString, HDollar).
  cbv iota. cbn [append].
  destruct n as [|c r]; [discriminate|]. cbn [is_name] in Hn.
  apply andb_prop in Hn as [Hc Hr].
  cbn [append hrun]. unfold hstep at 1. rewrite Hc. cbn [append].
  rewrite hrun_app, hscan_name by exact Hr. cbn [fst snd append str1].
  destruct post as [|d post'].
  { cbn. rewrite app_nil_r_str. reflexivity. }
  cbn [name_boundary] in Hbd. apply negb_true_iff in Hbd.
  apply plain_cons in Hpost as [Hb [Hd Hp]].
  cbn [hrun]. unfold hstep at 1. unfold name_char in Hbd. rewrite Hbd.
  unfold hstep_plain. rewrite Hb, Hd.
  rewrite hrun_plain by exact Hp. rewrite app_assoc_str. reflexivity.
Qed.

Lemma bare_variable_expanded_witness :
  config_line ("        proxy_set_header X-Real-IP " ++ "$" ++ "remote_addr" ++ ";") =
    "        proxy_set_header X-Real-IP " ++ boot_env "remote_addr" ++ ";" /\
  boot_env "remote_addr" = EmptyString.
Proof. split; [apply bare_variable_expanded; reflexivity | reflexivity]. Defined.

(** ** Listener, certificate, security groups, target group *)

Section Infrastructure.

Lemma lower_idem (c : ascii) : lower (lower c) = lower c.
Proof. destruct c as [[] [] [] [] [] [] [] []]; reflexivity. Qed.

Lemma lowercase_idem (s : string) : lowercase (lowercase s) = lowercase s.
Proof. induction s as [|c s IH]; cbn [lowercase]; [reflexivity | now rewrite lower_idem, IH]. Qed.

End Infrastructure.

(** The listener treats host names that differ only in letter case alike:
    lower-casing the Host of any request leaves its response unchanged. *)
Theorem listener_ignores_host_case (req : client_request) :
  dispatch req =
  dispatch {| cr_host := lowercase (cr_host req); cr_path := cr_path req;
              cr_client_addr := cr_client_addr req; cr_xff := cr_xff req |}.
Proof.
  unfold dispatch. rewrite !dispatch_with_unfold. cbn [cr_host cr_path].
  rewrite lowercase_idem. reflexivity.
Qed.

(** Every Host the listener forwards is the name on the ACM certificate. *)
Theorem forwarded_host_has_certificate (h : string) :
  listener_action_for https_listener h = ForwardTo "NginxTargetGroup" ->
  cert_covers nginx_certificate h = true.
Proof.
  rewrite listener_action_https.
  destruct (String.eqb (lowercase h) "www.bim.com.sg") eqn:E; [|discriminate].
  intros _. unfold cert_covers. change (lowercase (cert_domain nginx_certificate)) with "www.bim.com.sg".
  rewrite String.eqb_sym. exact E.
Qed.

Lemma forwarded_host_has_certificate_witness :
  listener_action_for https_listener "Www.Bim.Com.Sg" = ForwardTo "NginxTargetGroup" /\
  cert_covers nginx_certificate "Www.Bim.Com.Sg" = true.
Proof.
  split; [reflexivity|]. apply forwarded_host_has_certificate. reflexivity.
Defined.

(** The load balancer accepts TCP connections on port 443 only, from any
    IPv4 address and from nothing else. *)
Theorem alb_ingress_https_ipv4 (src : source) (port : nat) :
  sg_admits alb_security_group src port = true <-> port = 443 /\ src_ipv4 src = true.
Proof.
  unfold sg_admits. cbn [sg_ingress alb_security_group existsb ir_peer ir_port peer_admits].
  rewrite orb_false_r, andb_true_iff, Nat.eqb_eq.
  split; intros [H1 H2]; split; congruence.
Qed.

(** The instance accepts TCP connections on port 80 only, and only from
    members of the load balancer's security group: nothing reaches nginx
    except through the load balancer. *)
Theorem instance_reachable_only_from_alb (src : source) (port : nat) :
  sg_admits ec2_security_group src port = true <->
  port = 80 /\ In (sg_name alb_security_group) (src_groups src).
Proof.
  unfold sg_admits. cbn [sg_ingress ec2_security_group existsb ir_peer ir_port peer_admits].
  rewrite orb_false_r, andb_true_iff, Nat.eqb_eq, existsb_exists.
  split.
  - intros [[g [Hin Hg]] Hp]. apply String.eqb_eq in Hg. subst g. auto.
  - intros [Hp Hin]. split; [|congruence]. exists (sg_name alb_security_group).
    split; [exact Hin | apply String.eqb_refl].
Qed.

(** Every security-group hop of the forwarding path is open: an IPv4
    client reaches the listener's port, and the load balancer reaches the
    target group's port on the instance. *)
Theorem forwarding_path_open (client : source) :
  src_ipv4 client = true ->
  sg_admits alb_security_group client (ls_port https_listener) = true /\
  sg_admits ec2_security_group alb_source (tg_port nginx_target_group) = true.
Proof.
  intros H. split; [|reflexivity].
  apply alb_ingress_https_ipv4. split; [reflexivity | exact H].
Qed.

Lemma forwarding_path_open_witness :
  sg_admits alb_security_group {| src_ipv4 := true; src_groups := [] |} (ls_port https_listener) = true /\
  sg_admits ec2_security_group alb_source (tg_port nginx_target_group) = true.
Proof. apply forwarding_path_open. reflexivity. Defined.

(** The target group counts a health-check reply as healthy exactly when
    its status is between 200 and 399. *)
Theorem health_check_success_codes (c : nat) :
  target_healthy nginx_target_group c = true <-> 200 <= c <= 399.
Proof.
  unfold target_healthy.
  change (parse_http_codes (tg_hc_codes nginx_target_group)) with (Some [(200, 399)]).
  cbn [code_matches existsb fst snd]. rewrite orb_false_r, andb_true_iff, !Nat.leb_le.
  tauto.
Qed.

(** As deployed, nginx refuses the generated site file, so the stack
    answers every request with Host www.bim.com.sg (in any case) with the
    load balancer's 502, whatever the upstreams and the files on the
    instance, and every other request with the listener's 403. *)
Theorem deployed_stack_answers (up : string -> string -> upstream_result)
  (files : string -> bool) (req : client_request) :
  site_file_accepted = false /\
  stack_answer up files req =
    if String.eqb (lowercase (cr_host req)) "www.bim.com.sg" then AnsLoadBalancer 502
    else AnsListener 403 "text/plain" "Forbidden".
Proof.
  split; [reflexivity|]. unfold stack_answer. rewrite listener_action_https.
  destruct (String.eqb (lowercase (cr_host req)) "www.bim.com.sg"); reflexivity.
Qed.
